(** * The API key store and key manager of autogen_oaiapi

    A shallow embedding of [src/autogen_oaiapi/base/_key_manager.py]:
    the [APIKeyEntry] record, the in-memory [DefaultAPIKeyStore] with its
    forward map [_api_keys] (name -> entry) and reverse index [_key2name]
    (secret -> name), and the [BaseKeyManager] facade on top of it.

    Python specifics that the model keeps:
    - a [dict] is insertion ordered: assigning to a present key keeps its
      position, assigning to an absent key appends it;
    - [d.get(k, default)] never raises, [d[k]] raises [KeyError];
    - an [APIKeyEntry] is a mutable object.  The store holds references to
      entries, and [entry.allowed_models.append(..)] or
      [entry.is_active = ..] changes the object every holder sees. *)

From Stdlib Require Import String List Bool Arith Lia.
Import ListNotations.
Local Open Scope string_scope.
Local Open Scope list_scope.

(** ** Python dictionaries with string keys *)

Module Dict.

Definition t (V : Type) : Type := list (string * V).

Section Ops.
Context {V : Type}.

(** [{}] *)
Definition empty : t V := [].

(** [d.get(k, None)] *)
Fixpoint get (d : t V) (k : string) : option V :=
  match d with
  | [] => None
  | (k', v) :: d' => if String.eqb k' k then Some v else get d' k
  end.

(** [d.get(k, default)] *)
Definition get_or (d : t V) (k : string) (default : V) : V :=
  match get d k with
  | Some v => v
  | None => default
  end.

(** [k in d] *)
Definition contains (d : t V) (k : string) : bool :=
  match get d k with
  | Some _ => true
  | None => false
  end.

(** [d[k] = v]: in place when [k] is present, appended otherwise. *)
Fixpoint set (d : t V) (k : string) (v : V) : t V :=
  match d with
  | [] => [(k, v)]
  | (k', v') :: d' =>
      if String.eqb k' k then (k', v) :: d' else (k', v') :: set d' k v
  end.

(** [d.update(other)] *)
Definition update (d other : t V) : t V :=
  fold_left (fun acc kv => set acc (fst kv) (snd kv)) other d.

(** [d.items()] *)
Definition items (d : t V) : list (string * V) := d.

(** [d.keys()] *)
Definition keys (d : t V) : list string := map fst d.

(** [d1 == d2]: the same keys with the same values, in any order. *)
Definition eq (d1 d2 : t V) : Prop :=
  forall k, get d1 k = get d2 k.
End Ops.

End Dict.

(** ** The data model *)

(** [class APIKeyEntry(BaseModel)] *)
Record APIKeyEntry : Type := {
  api_key : string;
  allowed_models : list string;
  is_active : bool;
  description : option string
}.

(** [model in models] on a Python list of strings. *)
Definition list_contains (model : string) (models : list string) : bool :=
  existsb (String.eqb model) models.

(** The number of occurrences of [model], as [models.count(model)]. *)
Definition list_count (model : string) (models : list string) : nat :=
  count_occ string_dec models model.

(** [entry.allowed_models.append(model)] as a change of the object. *)
Definition append_model (model : string) (e : APIKeyEntry) : APIKeyEntry :=
  {| api_key := api_key e;
     allowed_models := allowed_models e ++ [model];
     is_active := is_active e;
     description := description e |}.

(** [entry.is_active = b] as a change of the object. *)
Definition with_is_active (b : bool) (e : APIKeyEntry) : APIKeyEntry :=
  {| api_key := api_key e;
     allowed_models := allowed_models e;
     is_active := b;
     description := description e |}.

(** A reference to an [APIKeyEntry] object. *)
Definition ref : Type := nat.

(** The two attributes of a [DefaultAPIKeyStore] instance. *)
Record StoreAttrs : Type := {
  _api_keys : Dict.t ref;
  _key2name : Dict.t string
}.

(** What a method can see and change: the entry objects, the next free
    reference, and the attributes of [self].  Every reference denotes an
    object, as every Python variable does; the objects built so far are
    those below [next_ref]. *)
Record World : Type := {
  heap : ref -> APIKeyEntry;
  next_ref : ref;
  self : StoreAttrs
}.

(** ** Methods as state transformers that may raise *)

Inductive exn : Type :=
| KeyError (k : string).

Inductive outcome (A : Type) : Type :=
| Returns (a : A)
| Raises (e : exn).
Arguments Returns {A} a.
Arguments Raises {A} e.

Definition M (A : Type) : Type := World -> outcome A * World.

Definition ret {A : Type} (a : A) : M A := fun w => (Returns a, w).

Definition raise {A : Type} (e : exn) : M A := fun w => (Raises e, w).

Definition bind {A B : Type} (m : M A) (k : A -> M B) : M B :=
  fun w =>
    match m w with
    | (Returns a, w') => k a w'
    | (Raises e, w') => (Raises e, w')
    end.

Declare Scope py_scope.
Delimit Scope py_scope with py.
Notation "x <- m ;; k" := (bind m (fun x => k))
  (at level 61, m at next level, right associativity) : py_scope.
Notation "m ;; k" := (bind m (fun _ => k))
  (at level 61, right associativity) : py_scope.
Local Open Scope py_scope.

(** The value a call returns and the world it leaves. *)
Definition result {A : Type} (m : M A) (w : World) : outcome A := fst (m w).
Definition exec {A : Type} (m : M A) (w : World) : World := snd (m w).

(** [for x in xs: body(x)] *)
Fixpoint for_each {A : Type} (xs : list A) (body : A -> M unit) : M unit :=
  match xs with
  | [] => ret tt
  | x :: xs' => body x ;; for_each xs' body
  end.

(** Reading the object behind a reference. *)
Definition deref (r : ref) : M APIKeyEntry :=
  fun w => (Returns (heap w r), w).

(** Changing the object behind a reference in place. *)
Definition mutate (r : ref) (f : APIKeyEntry -> APIKeyEntry) : M unit :=
  fun w =>
    (Returns tt,
     {| heap := fun r' => if Nat.eqb r' r then f (heap w r) else heap w r';
        next_ref := next_ref w;
        self := self w |}).

(** [APIKeyEntry(...)]: a new object at the next free reference, distinct
    from all objects built earlier. *)
Definition new_APIKeyEntry (e : APIKeyEntry) : M ref :=
  fun w =>
    (Returns (next_ref w),
     {| heap := fun r' => if Nat.eqb r' (next_ref w) then e else heap w r';
        next_ref := S (next_ref w);
        self := self w |}).

(** [self._api_keys] and [self._key2name] *)
Definition get_api_keys : M (Dict.t ref) :=
  fun w => (Returns (_api_keys (self w)), w).

Definition get_key2name : M (Dict.t string) :=
  fun w => (Returns (_key2name (self w)), w).

Definition put_api_keys (d : Dict.t ref) : M unit :=
  fun w =>
    (Returns tt,
     {| heap := heap w;
        next_ref := next_ref w;
        self := {| _api_keys := d; _key2name := _key2name (self w) |} |}).

Definition put_key2name (d : Dict.t string) : M unit :=
  fun w =>
    (Returns tt,
     {| heap := heap w;
        next_ref := next_ref w;
        self := {| _api_keys := _api_keys (self w); _key2name := d |} |}).

(** [d[k]] *)
Definition subscript {V : Type} (d : Dict.t V) (k : string) : M V :=
  match Dict.get d k with
  | Some v => ret v
  | None => raise (KeyError k)
  end.

(** ** [class DefaultAPIKeyStore(BaseAPIKeyStore)] *)

(** The parameter the source calls [api_key] is called [key] here, since
    [api_key] names the field of [APIKeyEntry]; likewise [descr] and
    [active]. *)

Module DefaultAPIKeyStore.

(** [__init__]: both dictionaries start empty. *)
Definition __init__ : StoreAttrs :=
  {| _api_keys := Dict.empty; _key2name := Dict.empty |}.

Definition set_api_key_entry_batch (key_entries : Dict.t ref) : M unit :=
  d <- get_api_keys ;;
  put_api_keys (Dict.update d key_entries) ;;
  for_each (Dict.items key_entries) (fun kv =>
    let key_name := fst kv in
    let entry := snd kv in
    e <- deref entry ;;
    k2n <- get_key2name ;;
    put_key2name (Dict.set k2n (api_key e) key_name)).

Definition set_api_key_entry (key_name : string) (key_entry : ref) : M unit :=
  d <- get_api_keys ;;
  put_api_keys (Dict.set d key_name key_entry) ;;
  e <- deref key_entry ;;
  k2n <- get_key2name ;;
  put_key2name (Dict.set k2n (api_key e) key_name).

Definition get_api_key_entry (key : string) : M (option ref) :=
  k2n <- get_key2name ;;
  d <- get_api_keys ;;
  ret (Dict.get d (Dict.get_or k2n key "")).

Definition set_api_key (key_name key : string) (descr : option string)
  : M ref :=
  entry <- new_APIKeyEntry {| api_key := key;
                              allowed_models := [];
                              is_active := true;
                              description := descr |} ;;
  d <- get_api_keys ;;
  put_api_keys (Dict.set d key_name entry) ;;
  k2n <- get_key2name ;;
  put_key2name (Dict.set k2n key key_name) ;;
  ret entry.

Definition set_model_to_api_key (key_name model : string) : M bool :=
  d <- get_api_keys ;;
  if negb (Dict.contains d key_name) then ret false
  else
    entry <- subscript d key_name ;;
    e <- deref entry ;;
    if negb (list_contains model (allowed_models e)) then
      mutate entry (append_model model) ;;
      ret true
    else ret false.

Definition set_api_key_active_status (key_name : string) (active : bool)
  : M unit :=
  d <- get_api_keys ;;
  if Dict.contains d key_name then
    entry <- subscript d key_name ;;
    mutate entry (with_is_active active)
  else ret tt.

Definition get_all_api_key_entries : M (list (string * ref)) :=
  d <- get_api_keys ;;
  ret (Dict.items d).

End DefaultAPIKeyStore.

(** ** [class BaseKeyManager(ABC)]

  The manager holds one store, [self._key_store]; its methods act on the
  same world.  [generate_key] comes from [.utils] and is taken as given:
  any computation that yields a string. *)

Module BaseKeyManager.

(** [key_entry.allowed_models if key_entry else []]: an [APIKeyEntry]
  object is always true, so the test is whether the lookup found one. *)
Definition get_allow_models (key : string) : M (list string) :=
  key_entry <- DefaultAPIKeyStore.get_api_key_entry key ;;
  match key_entry with
  | Some entry => e <- deref entry ;; ret (allowed_models e)
  | None => ret []
  end.


Section Issue.
Variable generate_key : M string.

Definition set_api_key (key_name : string) : M string :=
    key <- generate_key ;;
    DefaultAPIKeyStore.set_api_key key_name key None ;;
    ret key.
End Issue.

Definition get_api_key (key_name : string) : M string :=
  key_entry <- DefaultAPIKeyStore.get_api_key_entry key_name ;;
  match key_entry with
  | Some entry => e <- deref entry ;; ret (api_key e)
  | None => ret "BASE_API_KEY"
  end.

End BaseKeyManager.

(** ** The index the reverse map is meant to be

    [{entry.api_key: name for name, entry in self._api_keys.items()}]:
    a dict comprehension, so a later pair overwrites an earlier one with
    the same secret. *)

Definition derived_index (w : World) : Dict.t string :=
  fold_left
    (fun acc kv => Dict.set acc (api_key (heap w (snd kv))) (fst kv))
    (Dict.items (_api_keys (self w)))
    Dict.empty.

Definition index_consistent (w : World) : Prop :=
  Dict.eq (_key2name (self w)) (derived_index w).

(** ** Sequences of insertions

    An entry enters the store through [set_api_key] (a new object is
    built from the secret) or through [set_api_key_entry] (the caller's
    object is stored). *)

Inductive insertion : Type :=
| Create (key_name key : string) (descr : option string)
| Put (key_name : string) (key_entry : ref).

Definition insertion_name (c : insertion) : string :=
  match c with
  | Create key_name _ _ => key_name
  | Put key_name _ => key_name
  end.

(** One insertion, yielding the (name, entry) pair it stored. *)
Definition insert (c : insertion) : M (string * ref) :=
  match c with
  | Create key_name key descr =>
      entry <- DefaultAPIKeyStore.set_api_key key_name key descr ;;
      ret (key_name, entry)
  | Put key_name key_entry =>
      DefaultAPIKeyStore.set_api_key_entry key_name key_entry ;;
      ret (key_name, key_entry)
  end.

Fixpoint insert_all (cs : list insertion) : M (list (string * ref)) :=
  match cs with
  | [] => ret []
  | c :: cs' =>
      p <- insert c ;;
      ps <- insert_all cs' ;;
      ret (p :: ps)
  end.

(** The pairs a sequence of insertions stores when the next free
    reference is [next]: [Create] takes references in turn. *)
Fixpoint inserted_pairs (next : ref) (cs : list insertion)
  : list (string * ref) :=
  match cs with
  | [] => []
  | Create key_name _ _ :: cs' => (key_name, next) :: inserted_pairs (S next) cs'
  | Put key_name key_entry :: cs' => (key_name, key_entry) :: inserted_pairs next cs'
  end.

(** ** Concrete worlds, built by the methods from a new store *)

(** What a reference holds before any object is built there. *)
Definition unallocated : APIKeyEntry :=
  {| api_key := ""; allowed_models := []; is_active := false;
     description := None |}.

(** [DefaultAPIKeyStore()] in a program that has built no entry yet. *)
Definition fresh_world : World :=
  {| heap := fun _ => unallocated;
     next_ref := 0;
     self := DefaultAPIKeyStore.__init__ |}.

(** [store.set_api_key("svc-a", "sk_a")] *)
Definition world_svc_a : World :=
  exec (DefaultAPIKeyStore.set_api_key "svc-a" "sk_a" None) fresh_world.

(** ... then [store.set_model_to_api_key("svc-a", "gpt-x")] *)
Definition world_granted : World :=
  exec (DefaultAPIKeyStore.set_model_to_api_key "svc-a" "gpt-x") world_svc_a.

(** [store.set_api_key("svc", "sk_A")] then [store.set_api_key("svc", "sk_B")] *)
Definition world_rotated : World :=
  exec (DefaultAPIKeyStore.set_api_key "svc" "sk_B" None)
    (exec (DefaultAPIKeyStore.set_api_key "svc" "sk_A" None) fresh_world).

(** [store.set_api_key("a", "s")] then [store.set_api_key("b", "s")]:
    two names given the same secret. *)
Definition world_shared_secret : World :=
  exec (DefaultAPIKeyStore.set_api_key "b" "s" None)
    (exec (DefaultAPIKeyStore.set_api_key "a" "s" None) fresh_world).

(** [store.set_api_key("", "sk_root")] then
    [store.set_model_to_api_key("", "gpt-x")]: an entry whose name is the
    empty string. *)
Definition world_empty_name : World :=
  exec (DefaultAPIKeyStore.set_model_to_api_key "" "gpt-x")
    (exec (DefaultAPIKeyStore.set_api_key "" "sk_root" None) fresh_world).

(** [store.set_api_key("b", "k0")] *)
Definition world_b : World :=
  exec (DefaultAPIKeyStore.set_api_key "b" "k0" None) fresh_world.

(** A key generator that always yields ["sk-1"]. *)
Definition constant_key : M string := ret "sk-1".

(** ** Programs that use a store

    The calls a program makes on one store: it builds entries of its own
    and calls the mutating methods.  A program can only pass an entry it
    holds, that is, an object built before the call.  (A program that
    assigns to the fields of an entry behind the store's back is not
    covered.) *)

Inductive call : Type :=
| NewEntry (e : APIKeyEntry)
| SetApiKey (key_name key : string) (descr : option string)
| SetApiKeyEntry (key_name : string) (key_entry : ref)
| SetApiKeyEntryBatch (key_entries : Dict.t ref)
| SetModelToApiKey (key_name model : string)
| SetApiKeyActiveStatus (key_name : string) (active : bool).

Definition run_call (c : call) : M unit :=
  match c with
  | NewEntry e => new_APIKeyEntry e ;; ret tt
  | SetApiKey key_name key descr =>
      DefaultAPIKeyStore.set_api_key key_name key descr ;; ret tt
  | SetApiKeyEntry key_name key_entry =>
      DefaultAPIKeyStore.set_api_key_entry key_name key_entry
  | SetApiKeyEntryBatch key_entries =>
      DefaultAPIKeyStore.set_api_key_entry_batch key_entries
  | SetModelToApiKey key_name model =>
      DefaultAPIKeyStore.set_model_to_api_key key_name model ;; ret tt
  | SetApiKeyActiveStatus key_name active =>
      DefaultAPIKeyStore.set_api_key_active_status key_name active
  end.

(** The entries a call passes exist. *)
Definition call_ok (w : World) (c : call) : Prop :=
  match c with
  | SetApiKeyEntry _ key_entry => key_entry < next_ref w
  | SetApiKeyEntryBatch key_entries =>
      Forall (fun kv => snd kv < next_ref w) key_entries
  | _ => True
  end.

(** The worlds a program can reach from a new store. *)
Inductive reachable : World -> Prop :=
| reachable_init (h : ref -> APIKeyEntry) (n : ref) :
    reachable {| heap := h; next_ref := n;
                 self := DefaultAPIKeyStore.__init__ |}
| reachable_call (w : World) (c : call) :
    reachable w -> call_ok w c -> reachable (exec (run_call c) w).

(** What the two dictionaries always satisfy: every stored entry is an
    object that exists, its secret is a key of [_key2name], and every
    name [_key2name] leads to is stored. *)
Definition store_ok (w : World) : Prop :=
  (forall key_name entry,
      Dict.get (_api_keys (self w)) key_name = Some entry ->
      entry < next_ref w) /\
  (forall key_name entry,
      Dict.get (_api_keys (self w)) key_name = Some entry ->
      exists name', Dict.get (_key2name (self w)) (api_key (heap w entry))
                    = Some name') /\
  (forall key key_name,
      Dict.get (_key2name (self w)) key = Some key_name ->
      exists entry, Dict.get (_api_keys (self w)) key_name = Some entry).

(** [set_api_key_entry] called for each pair in turn. *)
Definition set_api_key_entries (key_entries : list (string * ref)) : M unit :=
  for_each key_entries (fun kv =>
    DefaultAPIKeyStore.set_api_key_entry (fst kv) (snd kv)).

(** The reverse index after [set_api_key_entry_batch]: one assignment per
    pair, in order. *)
Definition index_after (h : ref -> APIKeyEntry) (key_entries : list (string * ref))
  (k2n : Dict.t string) : Dict.t string :=
  fold_left (fun acc kv => Dict.set acc (api_key (h (snd kv))) (fst kv))
    key_entries k2n.

(** The seed of the specification's scenario:
    [{"svc-a": APIKeyEntry(api_key="sk_a")}] loaded with
    [set_api_key_entry_batch]. *)
Definition world_seeded : World :=
  exec (entry <- new_APIKeyEntry {| api_key := "sk_a"; allowed_models := [];
                                    is_active := true; description := None |} ;;
        DefaultAPIKeyStore.set_api_key_entry_batch [("svc-a", entry)])
    fresh_world.

(** ** Loops a caller writes *)

(** [[store.set_model_to_api_key(key_name, m) for m in models]]: the
    models granted one after the other, with the flags returned. *)
Fixpoint grant_all (key_name : string) (models : list string) : M (list bool) :=
  match models with
  | [] => ret []
  | model :: models' =>
      b <- DefaultAPIKeyStore.set_model_to_api_key key_name model ;;
      bs <- grant_all key_name models' ;;
      ret (b :: bs)
  end.



(** Two entries built by the caller, with secrets ["sk_1"] and ["sk_2"],
    and nothing stored yet. *)
Definition world_two_entries : World :=
  exec (new_APIKeyEntry {| api_key := "sk_1"; allowed_models := ["gpt-a"];
                           is_active := true; description := None |} ;;
        new_APIKeyEntry {| api_key := "sk_2"; allowed_models := [];
                           is_active := false; description := Some "second" |})
    fresh_world.

(** * Facts about dictionaries *)

Section DictFacts.
Context {V : Type}.
Implicit Types (d : Dict.t V) (k : string) (v : V).

Lemma dict_get_set_eq d k v : Dict.get (Dict.set d k v) k = Some v.
Proof.
  induction d as [|[k' v'] d IH]; simpl.
  - now rewrite String.eqb_refl.
  - destruct (String.eqb k' k) eqn:E; simpl; rewrite E; auto.
Qed.

Lemma dict_get_set_ne d k k' v :
  k <> k' -> Dict.get (Dict.set d k v) k' = Dict.get d k'.
Proof.
  intros Hne. induction d as [|[k0 v0] d IH]; simpl.
  - destruct (String.eqb k k') eqn:E; auto.
    apply String.eqb_eq in E. contradiction.
  - destruct (String.eqb k0 k) eqn:E; simpl.
    + apply String.eqb_eq in E. subst k0.
      destruct (String.eqb k k') eqn:E'; auto.
      apply String.eqb_eq in E'. contradiction.
    + destruct (String.eqb k0 k'); auto.
Qed.

(** Assigning to an absent key appends it: the dictionary keeps its
    insertion order. *)
Lemma dict_set_absent d k v :
  Dict.get d k = None -> Dict.set d k v = d ++ [(k, v)].
Proof.
  induction d as [|[k' v'] d IH]; simpl; intros H; auto.
  destruct (String.eqb k' k); [discriminate|].
  now rewrite IH.
Qed.

Lemma dict_contains_false d k :
  Dict.contains d k = false <-> Dict.get d k = None.
Proof.
  unfold Dict.contains. destruct (Dict.get d k); split; congruence.
Qed.

Lemma dict_contains_true d k :
  Dict.contains d k = true <-> exists v, Dict.get d k = Some v.
Proof.
  unfold Dict.contains. destruct (Dict.get d k) as [v|]; split.
  - eauto.
  - auto.
  - discriminate.
  - intros [v H]. discriminate.
Qed.

Lemma dict_contains_set_ne d k k' v :
  k <> k' -> Dict.contains (Dict.set d k v) k' = Dict.contains d k'.
Proof.
  intros Hne. unfold Dict.contains. now rewrite dict_get_set_ne.
Qed.

End DictFacts.

(** * Facts about lists of models *)

Lemma list_contains_In (model : string) (models : list string) :
  list_contains model models = true <-> In model models.
Proof.
  unfold list_contains. rewrite existsb_exists. split.
  - intros [x [Hin Heq]]. apply String.eqb_eq in Heq. now subst.
  - intros Hin. exists model. split; auto. apply String.eqb_refl.
Qed.

Lemma list_contains_not_In (model : string) (models : list string) :
  list_contains model models = false <-> ~ In model models.
Proof.
  rewrite <- list_contains_In.
  destruct (list_contains model models); split; congruence.
Qed.

Lemma list_count_append_new (model : string) (models : list string) :
  ~ In model models -> list_count model (models ++ [model]) = 1.
Proof.
  intros Hnot. unfold list_count. rewrite count_occ_app.
  apply (count_occ_not_In string_dec) in Hnot. rewrite Hnot. simpl.
  destruct (string_dec model model); congruence.
Qed.

(** * What each method does to the world *)

Lemma run_pair {A : Type} (m : M A) (w : World) :
  m w = (result m w, exec m w).
Proof. unfold result, exec. now destruct (m w). Qed.

Lemma set_api_key_run (w : World) (key_name key : string)
  (descr : option string) :
  DefaultAPIKeyStore.set_api_key key_name key descr w =
  (Returns (next_ref w),
   {| heap := fun r' =>
        if Nat.eqb r' (next_ref w)
        then {| api_key := key; allowed_models := []; is_active := true;
                description := descr |}
        else heap w r';
      next_ref := S (next_ref w);
      self := {| _api_keys := Dict.set (_api_keys (self w)) key_name (next_ref w);
                 _key2name := Dict.set (_key2name (self w)) key key_name |} |}).
Proof. reflexivity. Qed.

Lemma set_api_key_entry_run (w : World) (key_name : string) (key_entry : ref) :
  DefaultAPIKeyStore.set_api_key_entry key_name key_entry w =
  (Returns tt,
   {| heap := heap w;
      next_ref := next_ref w;
      self := {| _api_keys := Dict.set (_api_keys (self w)) key_name key_entry;
                 _key2name := Dict.set (_key2name (self w))
                                (api_key (heap w key_entry)) key_name |} |}).
Proof. reflexivity. Qed.

Lemma get_api_key_entry_run (w : World) (key : string) :
  DefaultAPIKeyStore.get_api_key_entry key w =
  (Returns (Dict.get (_api_keys (self w))
              (Dict.get_or (_key2name (self w)) key "")), w).
Proof. reflexivity. Qed.

Lemma set_model_absent (w : World) (key_name model : string) :
  Dict.get (_api_keys (self w)) key_name = None ->
  DefaultAPIKeyStore.set_model_to_api_key key_name model w = (Returns false, w).
Proof.
  intros H. unfold DefaultAPIKeyStore.set_model_to_api_key, bind, get_api_keys.
  apply dict_contains_false in H. now rewrite H.
Qed.

Lemma set_model_new (w : World) (key_name model : string) (entry : ref) :
  Dict.get (_api_keys (self w)) key_name = Some entry ->
  list_contains model (allowed_models (heap w entry)) = false ->
  DefaultAPIKeyStore.set_model_to_api_key key_name model w =
  (Returns true,
   {| heap := fun r' =>
        if Nat.eqb r' entry then append_model model (heap w entry)
        else heap w r';
      next_ref := next_ref w;
      self := self w |}).
Proof.
  intros Hget Hnew.
  unfold DefaultAPIKeyStore.set_model_to_api_key, bind, get_api_keys,
    Dict.contains, subscript.
  rewrite Hget. simpl. unfold ret at 1. simpl. now rewrite Hnew.
Qed.

Lemma set_model_present (w : World) (key_name model : string) (entry : ref) :
  Dict.get (_api_keys (self w)) key_name = Some entry ->
  list_contains model (allowed_models (heap w entry)) = true ->
  DefaultAPIKeyStore.set_model_to_api_key key_name model w = (Returns false, w).
Proof.
  intros Hget Hold.
  unfold DefaultAPIKeyStore.set_model_to_api_key, bind, get_api_keys,
    Dict.contains, subscript.
  rewrite Hget. simpl. unfold ret at 1. simpl. now rewrite Hold.
Qed.

Lemma set_active_absent (w : World) (key_name : string) (active : bool) :
  Dict.get (_api_keys (self w)) key_name = None ->
  DefaultAPIKeyStore.set_api_key_active_status key_name active w =
  (Returns tt, w).
Proof.
  intros H.
  unfold DefaultAPIKeyStore.set_api_key_active_status, bind, get_api_keys.
  apply dict_contains_false in H. now rewrite H.
Qed.

Lemma set_active_stored (w : World) (key_name : string) (active : bool)
  (entry : ref) :
  Dict.get (_api_keys (self w)) key_name = Some entry ->
  DefaultAPIKeyStore.set_api_key_active_status key_name active w =
  (Returns tt,
   {| heap := fun r' =>
        if Nat.eqb r' entry then with_is_active active (heap w entry)
        else heap w r';
      next_ref := next_ref w;
      self := self w |}).
Proof.
  intros Hget.
  unfold DefaultAPIKeyStore.set_api_key_active_status, bind, get_api_keys,
    Dict.contains, subscript.
  now rewrite Hget.
Qed.

Lemma get_allow_models_run (w : World) (key : string) :
  BaseKeyManager.get_allow_models key w =
  (Returns
     match Dict.get (_api_keys (self w))
             (Dict.get_or (_key2name (self w)) key "") with
     | Some entry => allowed_models (heap w entry)
     | None => []
     end, w).
Proof.
  unfold BaseKeyManager.get_allow_models, bind.
  rewrite get_api_key_entry_run.
  now destruct (Dict.get (_api_keys (self w)) _).
Qed.

(** [get_api_key(key_name)] hands [key_name] to [get_api_key_entry], which
    reads it as a secret: the name goes through the reverse index. *)
Lemma get_api_key_run (w : World) (key_name : string) :
  BaseKeyManager.get_api_key key_name w =
  (Returns
     match Dict.get (_api_keys (self w))
             (Dict.get_or (_key2name (self w)) key_name "") with
     | Some entry => api_key (heap w entry)
     | None => "BASE_API_KEY"
     end, w).
Proof.
  unfold BaseKeyManager.get_api_key, bind.
  rewrite get_api_key_entry_run.
  now destruct (Dict.get (_api_keys (self w)) _).
Qed.

(** Replacing the entry of a name leaves the old secret in the reverse
    index, in every world: both secrets resolve to the new entry. *)
Lemma rotation_lookup (w : World) (key_name keyA keyB : string)
  (dA dB : option string) :
  let w2 := exec (DefaultAPIKeyStore.set_api_key key_name keyB dB)
              (exec (DefaultAPIKeyStore.set_api_key key_name keyA dA) w) in
  let entryB := S (next_ref w) in
  result (DefaultAPIKeyStore.get_api_key_entry keyA) w2 = Returns (Some entryB) /\
  result (DefaultAPIKeyStore.get_api_key_entry keyB) w2 = Returns (Some entryB) /\
  api_key (heap w2 entryB) = keyB.
Proof.
  unfold exec, result. rewrite !set_api_key_run. simpl.
  assert (HA : Dict.get (Dict.set (Dict.set (_key2name (self w)) keyA key_name)
                           keyB key_name) keyA = Some key_name).
  { destruct (string_dec keyB keyA) as [->|Hne].
    - apply dict_get_set_eq.
    - rewrite dict_get_set_ne by assumption. apply dict_get_set_eq. }
  unfold Dict.get_or. rewrite HA, !dict_get_set_eq, Nat.eqb_refl.
  repeat split.
Qed.

(** * The claims *)

(** C1 (the code departs from the claim).  After
    [set_api_key("svc", "sk_A")] and [set_api_key("svc", "sk_B")] on a new
    store, [get_api_key_entry("sk_A")] is not [None]: nothing removes
    ["sk_A"] from [_key2name], so it still leads to the name ["svc"] and
    the lookup returns the entry built for ["sk_B"]. *)
Theorem rotated_secret_still_resolves :
  result (DefaultAPIKeyStore.get_api_key_entry "sk_A") world_rotated
    = Returns (Some 1) /\
  result (DefaultAPIKeyStore.get_api_key_entry "sk_B") world_rotated
    = Returns (Some 1) /\
  api_key (heap world_rotated 1) = "sk_B" /\
  Dict.get (_key2name (self world_rotated)) "sk_A" = Some "svc".
Proof. repeat split. Qed.

(** C2 (the code departs from the claim).  After the same two calls the
    reverse index holds the key ["sk_A"], which the map
    [{entry.api_key: name}] of the stored entries does not have: the two
    are not equal. *)
Theorem rotation_breaks_index :
  Dict.get (_key2name (self world_rotated)) "sk_A" = Some "svc" /\
  Dict.get (derived_index world_rotated) "sk_A" = None /\
  ~ index_consistent world_rotated.
Proof.
  repeat split. intros H. specialize (H "sk_A"). discriminate H.
Qed.

(** C3 (the code departs from the claim).  With an entry stored under
    the name ["svc-a"] whose secret is ["sk_a"], [get_api_key("svc-a")]
    returns the placeholder ["BASE_API_KEY"], not ["sk_a"]: the name is
    looked up in the reverse index, where only secrets are keys. *)
Theorem get_api_key_of_stored_name :
  Dict.get (_api_keys (self world_svc_a)) "svc-a" = Some 0 /\
  api_key (heap world_svc_a 0) = "sk_a" /\
  result (BaseKeyManager.get_api_key "svc-a") world_svc_a
    = Returns "BASE_API_KEY".
Proof. repeat split. Qed.

(** C4, as amended.  When an entry is stored under [key_name] and its
    [allowed_models] does not contain [model] yet, the first
    [set_model_to_api_key(key_name, model)] returns [True], the second
    returns [False], and afterwards [allowed_models] is the old list with
    [model] appended once: it holds exactly one occurrence of [model]. *)
Theorem grant_model_twice (w : World) (key_name model : string) (entry : ref) :
  Dict.get (_api_keys (self w)) key_name = Some entry ->
  ~ In model (allowed_models (heap w entry)) ->
  let grant := DefaultAPIKeyStore.set_model_to_api_key key_name model in
  let w1 := exec grant w in
  let w2 := exec grant w1 in
  result grant w = Returns true /\
  result grant w1 = Returns false /\
  Dict.get (_api_keys (self w2)) key_name = Some entry /\
  allowed_models (heap w2 entry) = allowed_models (heap w entry) ++ [model] /\
  list_count model (allowed_models (heap w2 entry)) = 1.
Proof.
  intros Hget Hnew. cbv zeta.
  pose proof Hnew as Hnew'. apply list_contains_not_In in Hnew'.
  unfold result, exec. rewrite (set_model_new w key_name model entry Hget Hnew').
  cbn [fst snd].
  rewrite (set_model_present _ key_name model entry).
  - cbn [fst snd heap self]. rewrite Nat.eqb_refl. cbn [append_model allowed_models].
    repeat split; auto using list_count_append_new.
  - exact Hget.
  - cbn [heap]. rewrite Nat.eqb_refl. cbn [append_model allowed_models].
    apply list_contains_In, in_or_app. right. now left.
Qed.

(** C4, the claim as stated fails: in a store that holds an entry under
    ["svc-a"] to which ["gpt-x"] was granted already, the next call
    returns [False], not [True]. *)
Lemma grant_model_already_granted :
  Dict.get (_api_keys (self world_granted)) "svc-a" = Some 0 /\
  allowed_models (heap world_granted 0) = ["gpt-x"] /\
  result (DefaultAPIKeyStore.set_model_to_api_key "svc-a" "gpt-x") world_granted
    = Returns false.
Proof. repeat split. Qed.

Lemma grant_model_twice_witness :
  Dict.get (_api_keys (self world_svc_a)) "svc-a" = Some 0 /\
  ~ In "gpt-x" (allowed_models (heap world_svc_a 0)) /\
  let grant := DefaultAPIKeyStore.set_model_to_api_key "svc-a" "gpt-x" in
  let w1 := exec grant world_svc_a in
  let w2 := exec grant w1 in
  result grant world_svc_a = Returns true /\
  result grant w1 = Returns false /\
  Dict.get (_api_keys (self w2)) "svc-a" = Some 0 /\
  allowed_models (heap w2 0) = allowed_models (heap world_svc_a 0) ++ ["gpt-x"] /\
  list_count "gpt-x" (allowed_models (heap w2 0)) = 1.
Proof.
  split; [reflexivity|]. split; [intros H; exact H|].
  apply (grant_model_twice world_svc_a "svc-a" "gpt-x" 0).
  - reflexivity.
  - intros H; exact H.
Defined.

(** C5.  For a name that is not in the forward map,
    [set_model_to_api_key] returns [False], raises nothing, and leaves the
    whole world as it was: both dictionaries and every entry object. *)
Theorem grant_model_unknown_name (w : World) (key_name model : string) :
  Dict.contains (_api_keys (self w)) key_name = false ->
  DefaultAPIKeyStore.set_model_to_api_key key_name model w = (Returns false, w).
Proof.
  intros H. apply set_model_absent. now apply dict_contains_false.
Qed.

Lemma grant_model_unknown_name_witness :
  Dict.contains (_api_keys (self world_svc_a)) "svc-z" = false /\
  DefaultAPIKeyStore.set_model_to_api_key "svc-z" "gpt-x" world_svc_a
    = (Returns false, world_svc_a).
Proof.
  split; [reflexivity|].
  apply (grant_model_unknown_name world_svc_a "svc-z" "gpt-x"). reflexivity.
Defined.

(** C6 (the code departs from the claim).  In a store with an entry
    named by the empty string, to which ["gpt-x"] was granted, a secret
    that is not in the reverse index gets that entry's models from
    [get_allow_models], not the empty list: the lookup falls back to the
    name [""]. *)
Theorem unknown_secret_gets_models :
  Dict.get (_key2name (self world_empty_name)) "unknown" = None /\
  result (BaseKeyManager.get_allow_models "unknown") world_empty_name
    = Returns ["gpt-x"].
Proof. repeat split. Qed.

(** C7.  Right after [set_api_key(key_name, key, descr)] on the store,
    and right after the manager's [set_api_key(key_name)] whose generator
    returned [key], [get_api_key_entry(key)] returns the entry stored under
    [key_name]; that entry has [api_key = key], no allowed model and
    [is_active = True]. *)
Theorem inserted_secret_resolves :
  (forall (w : World) (key_name key : string) (descr : option string),
      let create := DefaultAPIKeyStore.set_api_key key_name key descr in
      let w' := exec create w in
      exists entry : ref,
        result create w = Returns entry /\
        result (DefaultAPIKeyStore.get_api_key_entry key) w'
          = Returns (Some entry) /\
        Dict.get (_api_keys (self w')) key_name = Some entry /\
        heap w' entry = {| api_key := key; allowed_models := [];
                           is_active := true; description := descr |}) /\
  (forall (generate_key : M string) (w w1 : World) (key_name key : string),
      generate_key w = (Returns key, w1) ->
      let issue := BaseKeyManager.set_api_key generate_key key_name in
      let w' := exec issue w in
      result issue w = Returns key /\
      exists entry : ref,
        result (DefaultAPIKeyStore.get_api_key_entry key) w'
          = Returns (Some entry) /\
        Dict.get (_api_keys (self w')) key_name = Some entry /\
        heap w' entry = {| api_key := key; allowed_models := [];
                           is_active := true; description := None |}).
Proof.
  split.
  - intros w key_name key descr. cbv zeta. exists (next_ref w).
    unfold result, exec. rewrite set_api_key_run. cbn [fst snd].
    rewrite get_api_key_entry_run. cbn [fst self _api_keys _key2name heap].
    unfold Dict.get_or. rewrite (dict_get_set_eq (_key2name (self w))).
    rewrite !dict_get_set_eq, Nat.eqb_refl. repeat split.
  - intros generate_key w w1 key_name key Hgen. cbv zeta.
    unfold result, exec, BaseKeyManager.set_api_key, bind.
    rewrite Hgen, set_api_key_run. unfold ret. cbn [fst snd].
    split; [reflexivity|].
    exists (next_ref w1).
    rewrite get_api_key_entry_run. cbn [fst self _api_keys _key2name heap].
    unfold Dict.get_or. rewrite (dict_get_set_eq (_key2name (self w1))).
    rewrite !dict_get_set_eq, Nat.eqb_refl. repeat split.
Qed.

Lemma inserted_secret_resolves_witness :
  constant_key fresh_world = (Returns "sk-1", fresh_world) /\
  let issue := BaseKeyManager.set_api_key constant_key "svc-b" in
  let w' := exec issue fresh_world in
  result issue fresh_world = Returns "sk-1" /\
  exists entry : ref,
    result (DefaultAPIKeyStore.get_api_key_entry "sk-1") w'
      = Returns (Some entry) /\
    Dict.get (_api_keys (self w')) "svc-b" = Some entry /\
    heap w' entry = {| api_key := "sk-1"; allowed_models := [];
                       is_active := true; description := None |}.
Proof.
  split; [reflexivity|].
  apply (proj2 inserted_secret_resolves
           constant_key fresh_world fresh_world "svc-b" "sk-1").
  reflexivity.
Defined.

(** C8, as amended.  [set_api_key_active_status] on an unknown name
    returns and changes nothing.  It never changes what
    [get_api_key_entry] returns.  And when the entry stored under
    [key_name] is the one [get_api_key_entry(key)] returned before
    [set_api_key_active_status(key_name, False)], the lookup returns that
    entry afterwards too, now with [is_active = False] and its other
    fields as they were. *)
Theorem set_active_and_lookup :
  (forall (w : World) (key_name : string) (active : bool),
      Dict.contains (_api_keys (self w)) key_name = false ->
      DefaultAPIKeyStore.set_api_key_active_status key_name active w
        = (Returns tt, w)) /\
  (forall (w : World) (key_name key : string) (active : bool),
      result (DefaultAPIKeyStore.get_api_key_entry key)
        (exec (DefaultAPIKeyStore.set_api_key_active_status key_name active) w)
      = result (DefaultAPIKeyStore.get_api_key_entry key) w) /\
  (forall (w : World) (key_name key : string) (entry : ref),
      Dict.get (_api_keys (self w)) key_name = Some entry ->
      result (DefaultAPIKeyStore.get_api_key_entry key) w
        = Returns (Some entry) ->
      let deactivate :=
        DefaultAPIKeyStore.set_api_key_active_status key_name false in
      let w' := exec deactivate w in
      result deactivate w = Returns tt /\
      result (DefaultAPIKeyStore.get_api_key_entry key) w'
        = Returns (Some entry) /\
      is_active (heap w' entry) = false /\
      api_key (heap w' entry) = api_key (heap w entry) /\
      allowed_models (heap w' entry) = allowed_models (heap w entry) /\
      description (heap w' entry) = description (heap w entry)).
Proof.
  split; [|split].
  - intros w key_name active H. apply set_active_absent.
    now apply dict_contains_false.
  - intros w key_name key active. unfold result, exec.
    destruct (Dict.get (_api_keys (self w)) key_name) as [entry|] eqn:Hget.
    + now rewrite (set_active_stored w key_name active entry Hget).
    + now rewrite (set_active_absent w key_name active Hget).
  - intros w key_name key entry Hget Hlookup. cbv zeta.
    unfold result, exec in *.
    rewrite (set_active_stored w key_name false entry Hget).
    rewrite get_api_key_entry_run in *. cbn [fst snd self heap] in *.
    rewrite Nat.eqb_refl. repeat split. exact Hlookup.
Qed.

(** C8, the claim as stated fails: when two names were given the same
    secret ["s"], the entry stored under ["a"] has secret ["s"], yet after
    [set_api_key_active_status("a", False)] the lookup of ["s"] returns
    the entry of ["b"], which is still active. *)
Lemma set_active_shared_secret :
  let w' := exec (DefaultAPIKeyStore.set_api_key_active_status "a" false)
              world_shared_secret in
  Dict.get (_api_keys (self world_shared_secret)) "a" = Some 0 /\
  api_key (heap world_shared_secret 0) = "s" /\
  result (DefaultAPIKeyStore.get_api_key_entry "s") w' = Returns (Some 1) /\
  is_active (heap w' 1) = true /\
  is_active (heap w' 0) = false.
Proof. repeat split. Qed.

Lemma set_active_and_lookup_witness :
  (Dict.contains (_api_keys (self world_svc_a)) "svc-z" = false /\
   DefaultAPIKeyStore.set_api_key_active_status "svc-z" false world_svc_a
     = (Returns tt, world_svc_a)) /\
  (Dict.get (_api_keys (self world_granted)) "svc-a" = Some 0 /\
   result (DefaultAPIKeyStore.get_api_key_entry "sk_a") world_granted
     = Returns (Some 0) /\
   let deactivate :=
     DefaultAPIKeyStore.set_api_key_active_status "svc-a" false in
   let w' := exec deactivate world_granted in
   result deactivate world_granted = Returns tt /\
   result (DefaultAPIKeyStore.get_api_key_entry "sk_a") w'
     = Returns (Some 0) /\
   is_active (heap w' 0) = false /\
   api_key (heap w' 0) = api_key (heap world_granted 0) /\
   allowed_models (heap w' 0) = allowed_models (heap world_granted 0) /\
   description (heap w' 0) = description (heap world_granted 0)).
Proof.
  split.
  - split; [reflexivity|].
    apply (proj1 set_active_and_lookup world_svc_a "svc-z" false).
    reflexivity.
  - split; [reflexivity|]. split; [reflexivity|].
    apply (proj2 (proj2 set_active_and_lookup) world_granted "svc-a" "sk_a" 0);
      reflexivity.
Defined.

(** * Insertion order *)

(** The reference an insertion stores. *)
Lemma insert_run (c : insertion) (w : World) :
  exists (entry : ref) (w1 : World),
    insert c w = (Returns (insertion_name c, entry), w1) /\
    inserted_pairs (next_ref w) [c] = [(insertion_name c, entry)] /\
    (forall cs, inserted_pairs (next_ref w) (c :: cs)
                = (insertion_name c, entry) :: inserted_pairs (next_ref w1) cs) /\
    _api_keys (self w1) = Dict.set (_api_keys (self w)) (insertion_name c) entry.
Proof.
  destruct c as [key_name key descr | key_name key_entry].
  - exists (next_ref w). eexists. unfold insert, bind.
    rewrite set_api_key_run. unfold ret. repeat split.
  - exists key_entry. eexists. unfold insert, bind.
    rewrite set_api_key_entry_run. unfold ret. repeat split.
Qed.

Lemma insert_all_fresh (cs : list insertion) :
  forall w : World,
    NoDup (map insertion_name cs) ->
    (forall c, In c cs ->
               Dict.get (_api_keys (self w)) (insertion_name c) = None) ->
    result (insert_all cs) w = Returns (inserted_pairs (next_ref w) cs) /\
    _api_keys (self (exec (insert_all cs) w))
      = _api_keys (self w) ++ inserted_pairs (next_ref w) cs.
Proof.
  induction cs as [|c cs IH]; intros w Hnd Hfresh.
  - unfold result, exec. simpl. now rewrite app_nil_r.
  - inversion Hnd as [|name names Hnotin Hnd']; subst.
    destruct (insert_run c w) as (entry & w1 & Hrun & _ & Hpairs & Hkeys).
    assert (Hfresh1 : forall c', In c' cs ->
              Dict.get (_api_keys (self w1)) (insertion_name c') = None).
    { intros c' Hin. rewrite Hkeys, dict_get_set_ne.
      - apply Hfresh. now right.
      - intros Heq. apply Hnotin. rewrite Heq. now apply in_map. }
    destruct (IH w1 Hnd' Hfresh1) as [Hres Hkeys1].
    assert (Hall : insert_all (c :: cs) w
                   = (Returns ((insertion_name c, entry)
                               :: inserted_pairs (next_ref w1) cs),
                      exec (insert_all cs) w1)).
    { cbn [insert_all]. unfold bind. rewrite Hrun.
      rewrite (run_pair (insert_all cs) w1), Hres. reflexivity. }
    unfold result, exec in *. rewrite Hall. cbn [fst snd].
    rewrite Hpairs. split; [reflexivity|].
    rewrite Hkeys1, Hkeys, dict_set_absent.
    + now rewrite <- app_assoc.
    + apply Hfresh. now left.
Qed.

Lemma inserted_pairs_names (cs : list insertion) :
  forall next : ref,
    map fst (inserted_pairs next cs) = map insertion_name cs.
Proof.
  induction cs as [|[key_name key descr | key_name key_entry] cs IH];
    intros next; simpl; [reflexivity| |]; now rewrite IH.
Qed.

(** C9, as amended.  When the names of a sequence of insertions are
    pairwise distinct and none of them is stored yet,
    [get_all_api_key_entries] afterwards returns what it returned before,
    followed by the inserted (name, entry) pairs in the order of
    insertion; on a new store these are the whole list. *)
Theorem insertion_order_kept (w : World) (cs : list insertion) :
  NoDup (map insertion_name cs) ->
  (forall c, In c cs ->
             Dict.contains (_api_keys (self w)) (insertion_name c) = false) ->
  exists (before pairs : list (string * ref)),
    result DefaultAPIKeyStore.get_all_api_key_entries w = Returns before /\
    result (insert_all cs) w = Returns pairs /\
    map fst pairs = map insertion_name cs /\
    result DefaultAPIKeyStore.get_all_api_key_entries (exec (insert_all cs) w)
      = Returns (before ++ pairs) /\
    (_api_keys (self w) = Dict.empty ->
     result DefaultAPIKeyStore.get_all_api_key_entries (exec (insert_all cs) w)
       = Returns pairs).
Proof.
  intros Hnd Hfresh.
  destruct (insert_all_fresh cs w Hnd) as [Hres Hkeys].
  { intros c Hin. apply dict_contains_false. now apply Hfresh. }
  exists (Dict.items (_api_keys (self w))), (inserted_pairs (next_ref w) cs).
  split; [reflexivity|]. split; [exact Hres|].
  split; [apply inserted_pairs_names|].
  unfold result, DefaultAPIKeyStore.get_all_api_key_entries, bind, get_api_keys,
    ret, Dict.items in *. cbn [fst]. rewrite Hkeys. split; [reflexivity|].
  intros Hempty. now rewrite Hempty.
Qed.

(** C9, the claim as stated fails: in a store that already holds the
    name ["b"], inserting the distinct names ["a"] and then ["b"] lists
    ["b"] before ["a"]: an assignment to a present key keeps its place. *)
Lemma insertion_order_present_name :
  let cs := [Create "a" "k1" None; Create "b" "k2" None] in
  NoDup (map insertion_name cs) /\
  result (insert_all cs) world_b = Returns [("a", 1); ("b", 2)] /\
  result DefaultAPIKeyStore.get_all_api_key_entries (exec (insert_all cs) world_b)
    = Returns [("b", 2); ("a", 1)].
Proof.
  cbv zeta. split; [|split; reflexivity].
  repeat constructor; simpl; intuition discriminate.
Qed.

Lemma insertion_order_kept_witness :
  let cs := [Create "a" "k1" None; Put "b" 0; Create "c" "k3" None] in
  NoDup (map insertion_name cs) /\
  (forall c, In c cs ->
     Dict.contains (_api_keys (self world_svc_a)) (insertion_name c) = false) /\
  exists (before pairs : list (string * ref)),
    result DefaultAPIKeyStore.get_all_api_key_entries world_svc_a
      = Returns before /\
    result (insert_all cs) world_svc_a = Returns pairs /\
    map fst pairs = map insertion_name cs /\
    result DefaultAPIKeyStore.get_all_api_key_entries
      (exec (insert_all cs) world_svc_a) = Returns (before ++ pairs) /\
    (_api_keys (self world_svc_a) = Dict.empty ->
     result DefaultAPIKeyStore.get_all_api_key_entries
       (exec (insert_all cs) world_svc_a) = Returns pairs).
Proof.
  cbv zeta.
  assert (Hnd : NoDup (map insertion_name
                  [Create "a" "k1" None; Put "b" 0; Create "c" "k3" None])).
  { repeat constructor; simpl; intuition discriminate. }
  assert (Hfresh : forall c,
             In c [Create "a" "k1" None; Put "b" 0; Create "c" "k3" None] ->
             Dict.contains (_api_keys (self world_svc_a)) (insertion_name c)
             = false).
  { intros c [<-|[<-|[<-|[]]]]; reflexivity. }
  split; [exact Hnd|]. split; [exact Hfresh|].
  exact (insertion_order_kept world_svc_a _ Hnd Hfresh).
Defined.

(** C10.  For a secret that is not a key of [_key2name],
    [get_api_key_entry] looks up the name [""] in the forward map, raises
    nothing and changes nothing: it returns [None] only if no entry is
    stored under [""], and it returns the entry stored under [""] whenever
    there is one. *)
Theorem unknown_secret_falls_back_to_empty_name (w : World) (key : string) :
  Dict.get (_key2name (self w)) key = None ->
  DefaultAPIKeyStore.get_api_key_entry key w
    = (Returns (Dict.get (_api_keys (self w)) ""), w) /\
  (result (DefaultAPIKeyStore.get_api_key_entry key) w = Returns None ->
   Dict.get (_api_keys (self w)) "" = None) /\
  (forall entry : ref,
      Dict.get (_api_keys (self w)) "" = Some entry ->
      result (DefaultAPIKeyStore.get_api_key_entry key) w
        = Returns (Some entry)).
Proof.
  intros Hunknown. unfold result.
  rewrite get_api_key_entry_run. unfold Dict.get_or. rewrite Hunknown.
  cbn [fst]. repeat split.
  - intros H. now injection H.
  - intros entry H. now rewrite H.
Qed.

Lemma unknown_secret_falls_back_witness :
  Dict.get (_key2name (self world_empty_name)) "unknown" = None /\
  DefaultAPIKeyStore.get_api_key_entry "unknown" world_empty_name
    = (Returns (Some 0), world_empty_name).
Proof.
  split; [reflexivity|].
  exact (proj1 (unknown_secret_falls_back_to_empty_name
                  world_empty_name "unknown" eq_refl)).
Defined.

(** * Further properties of the store *)

(** ** The batch load *)

(** The loop of [set_api_key_entry_batch] only assigns to [_key2name]. *)
Lemma batch_loop_run (key_entries : list (string * ref)) :
  forall w : World,
    for_each key_entries (fun kv =>
      e <- deref (snd kv) ;;
      k2n <- get_key2name ;;
      put_key2name (Dict.set k2n (api_key e) (fst kv))) w
    = (Returns tt,
       {| heap := heap w;
          next_ref := next_ref w;
          self := {| _api_keys := _api_keys (self w);
                     _key2name := index_after (heap w) key_entries
                                    (_key2name (self w)) |} |}).
Proof.
  induction key_entries as [|kv kvs IH]; intros w.
  - destruct w as [h n [d k2n]]. reflexivity.
  - cbn [for_each]. unfold bind at 1. simpl. rewrite IH. reflexivity.
Qed.

Lemma set_api_key_entry_batch_run (w : World) (key_entries : Dict.t ref) :
  DefaultAPIKeyStore.set_api_key_entry_batch key_entries w
  = (Returns tt,
     {| heap := heap w;
        next_ref := next_ref w;
        self := {| _api_keys := Dict.update (_api_keys (self w)) key_entries;
                   _key2name := index_after (heap w) key_entries
                                  (_key2name (self w)) |} |}).
Proof.
  unfold DefaultAPIKeyStore.set_api_key_entry_batch, bind, get_api_keys,
    put_api_keys, Dict.items.
  rewrite batch_loop_run. reflexivity.
Qed.

Lemma set_api_key_entries_run (key_entries : list (string * ref)) :
  forall w : World,
    set_api_key_entries key_entries w
    = (Returns tt,
       {| heap := heap w;
          next_ref := next_ref w;
          self := {| _api_keys := Dict.update (_api_keys (self w)) key_entries;
                     _key2name := index_after (heap w) key_entries
                                    (_key2name (self w)) |} |}).
Proof.
  unfold set_api_key_entries.
  induction key_entries as [|kv kvs IH]; intros w.
  - destruct w as [h n [d k2n]]. reflexivity.
  - cbn [for_each]. unfold bind. rewrite set_api_key_entry_run, IH.
    reflexivity.
Qed.

(** X1.  [set_api_key_entry_batch] does what [set_api_key_entry], called for
    each pair of the batch in order, does: the same result and the same
    world. *)
Theorem batch_is_entry_by_entry (w : World) (key_entries : Dict.t ref) :
  DefaultAPIKeyStore.set_api_key_entry_batch key_entries w
  = set_api_key_entries (Dict.items key_entries) w.
Proof.
  unfold Dict.items.
  now rewrite set_api_key_entry_batch_run, set_api_key_entries_run.
Qed.

(** ** What always holds of the two dictionaries *)

Lemma dict_get_set_some {V : Type} (d : Dict.t V) (k k' : string) (v : V) :
  k = k' \/ (exists v', Dict.get d k' = Some v') ->
  exists v', Dict.get (Dict.set d k v) k' = Some v'.
Proof.
  intros H. destruct (string_dec k k') as [->|Hne].
  - exists v. apply dict_get_set_eq.
  - rewrite dict_get_set_ne by assumption.
    destruct H as [Heq|H]; [contradiction|exact H].
Qed.

Lemma dict_get_set_inv {V : Type} (d : Dict.t V) (k k' : string) (v v' : V) :
  Dict.get (Dict.set d k v) k' = Some v' ->
  (k = k' /\ v' = v) \/ (k <> k' /\ Dict.get d k' = Some v').
Proof.
  intros H. destruct (string_dec k k') as [->|Hne].
  - rewrite dict_get_set_eq in H. left. split; congruence.
  - rewrite dict_get_set_ne in H by assumption. now right.
Qed.

Lemma exec_then_ret {A : Type} (m : M A) (w : World) :
  exec (m ;; ret tt) w = exec m w.
Proof.
  unfold exec, bind. now destruct (m w) as [[a|e] w'].
Qed.

Lemma store_ok_set_api_key_entry (w : World) (key_name : string)
  (key_entry : ref) :
  store_ok w -> key_entry < next_ref w ->
  store_ok (exec (DefaultAPIKeyStore.set_api_key_entry key_name key_entry) w).
Proof.
  intros (Hlive & Hfound & Hnamed) Hlt.
  unfold exec. rewrite set_api_key_entry_run.
  unfold store_ok. cbn [snd heap next_ref self _api_keys _key2name].
  split; [|split].
  - intros n e Hget. apply dict_get_set_inv in Hget.
    destruct Hget as [[_ ->]|[_ Hget]]; eauto.
  - intros n e Hget. apply dict_get_set_some.
    apply dict_get_set_inv in Hget.
    destruct Hget as [[_ ->]|[_ Hget]]; eauto.
  - intros key n Hget. apply dict_get_set_some.
    apply dict_get_set_inv in Hget.
    destruct Hget as [[_ ->]|[_ Hget]]; eauto.
Qed.

Lemma store_ok_set_api_key (w : World) (key_name key : string)
  (descr : option string) :
  store_ok w ->
  store_ok (exec (DefaultAPIKeyStore.set_api_key key_name key descr) w).
Proof.
  intros (Hlive & Hfound & Hnamed).
  unfold exec. rewrite set_api_key_run.
  unfold store_ok. cbn [snd heap next_ref self _api_keys _key2name].
  split; [|split].
  - intros n e Hget. apply dict_get_set_inv in Hget.
    destruct Hget as [[_ ->]|[_ Hget]]; [lia|].
    apply Hlive in Hget. lia.
  - intros n e Hget. apply dict_get_set_some.
    apply dict_get_set_inv in Hget.
    destruct Hget as [[_ ->]|[_ Hget]].
    + rewrite Nat.eqb_refl. now left.
    + pose proof (Hlive _ _ Hget) as Hlt.
      destruct (Nat.eqb_spec e (next_ref w)) as [Heq|_]; [lia|]. eauto.
  - intros s n Hget. apply dict_get_set_some.
    apply dict_get_set_inv in Hget.
    destruct Hget as [[_ ->]|[_ Hget]]; eauto.
Qed.

Lemma store_ok_new_entry (w : World) (e : APIKeyEntry) :
  store_ok w -> store_ok (exec (new_APIKeyEntry e) w).
Proof.
  intros (Hlive & Hfound & Hnamed).
  unfold exec, new_APIKeyEntry, store_ok.
  cbn [snd heap next_ref self _api_keys _key2name].
  split; [|split].
  - intros n r Hget. apply Hlive in Hget. lia.
  - intros n r Hget. pose proof (Hlive _ _ Hget) as Hlt.
    destruct (Nat.eqb_spec r (next_ref w)) as [Heq|_]; [lia|]. eauto.
  - exact Hnamed.
Qed.

(** A change of an entry that keeps its secret keeps the store sound. *)
Lemma store_ok_mutate (w : World) (entry : ref)
  (f : APIKeyEntry -> APIKeyEntry) :
  (forall e, api_key (f e) = api_key e) ->
  store_ok w -> store_ok (exec (mutate entry f) w).
Proof.
  intros Hkey (Hlive & Hfound & Hnamed).
  unfold exec, mutate, store_ok.
  cbn [snd heap next_ref self _api_keys _key2name].
  split; [exact Hlive|]. split; [|exact Hnamed].
  intros n r Hget. destruct (Nat.eqb_spec r entry) as [->|_]; [rewrite Hkey|];
    eauto.
Qed.

Lemma store_ok_set_model (w : World) (key_name model : string) :
  store_ok w ->
  store_ok (exec (DefaultAPIKeyStore.set_model_to_api_key key_name model) w).
Proof.
  intros Hok. unfold exec.
  destruct (Dict.get (_api_keys (self w)) key_name) as [entry|] eqn:Hget.
  - destruct (list_contains model (allowed_models (heap w entry))) eqn:Hin.
    + now rewrite (set_model_present w key_name model entry Hget Hin).
    + rewrite (set_model_new w key_name model entry Hget Hin).
      now apply (store_ok_mutate w entry (append_model model)).
  - now rewrite (set_model_absent w key_name model Hget).
Qed.

Lemma store_ok_set_active (w : World) (key_name : string) (active : bool) :
  store_ok w ->
  store_ok (exec (DefaultAPIKeyStore.set_api_key_active_status key_name active) w).
Proof.
  intros Hok. unfold exec.
  destruct (Dict.get (_api_keys (self w)) key_name) as [entry|] eqn:Hget.
  - rewrite (set_active_stored w key_name active entry Hget).
    now apply (store_ok_mutate w entry (with_is_active active)).
  - now rewrite (set_active_absent w key_name active Hget).
Qed.

Lemma store_ok_entries (key_entries : list (string * ref)) :
  forall w : World,
    store_ok w ->
    Forall (fun kv => snd kv < next_ref w) key_entries ->
    store_ok (exec (set_api_key_entries key_entries) w).
Proof.
  induction key_entries as [|kv kvs IH]; intros w Hok Hlive.
  - exact Hok.
  - inversion Hlive as [|kv' kvs' Hlt Hlive']; subst.
    pose proof (store_ok_set_api_key_entry w (fst kv) (snd kv) Hok Hlt) as Hok1.
    unfold exec, set_api_key_entries in *. cbn [for_each]. unfold bind.
    rewrite set_api_key_entry_run in *. cbn [snd] in Hok1.
    apply IH; [exact Hok1|exact Hlive'].
Qed.

(** In every world a program can reach, the stored entries exist, each
    stored secret is a key of the reverse index, and the reverse index
    leads only to stored names. *)
Lemma reachable_store_ok (w : World) : reachable w -> store_ok w.
Proof.
  induction 1 as [h n | w c Hreach IH Hcall].
  - unfold store_ok. cbn. repeat split; intros; discriminate.
  - destruct c as [e | key_name key descr | key_name key_entry | key_entries
                  | key_name model | key_name active];
      cbn [run_call call_ok] in *; rewrite ?exec_then_ret.
    + now apply store_ok_new_entry.
    + now apply store_ok_set_api_key.
    + now apply store_ok_set_api_key_entry.
    + unfold exec. rewrite set_api_key_entry_batch_run.
      rewrite <- (set_api_key_entries_run key_entries).
      now apply store_ok_entries.
    + now apply store_ok_set_model.
    + now apply store_ok_set_active.
Qed.

(** X2.  A secret of a stored entry is never reported as not found: in every
    world a program can reach, looking up the secret of an entry stored
    under some name returns an entry. *)
Theorem stored_secret_is_found (w : World) (key_name : string) (entry : ref) :
  reachable w ->
  Dict.get (_api_keys (self w)) key_name = Some entry ->
  exists entry' : ref,
    DefaultAPIKeyStore.get_api_key_entry (api_key (heap w entry)) w
    = (Returns (Some entry'), w).
Proof.
  intros Hreach Hget.
  destruct (reachable_store_ok w Hreach) as (_ & Hfound & Hnamed).
  destruct (Hfound _ _ Hget) as [name' Hname'].
  destruct (Hnamed _ _ Hname') as [entry' Hentry'].
  exists entry'. rewrite get_api_key_entry_run.
  unfold Dict.get_or. now rewrite Hname', Hentry'.
Qed.

Lemma world_shared_secret_reachable : reachable world_shared_secret.
Proof.
  unfold world_shared_secret.
  rewrite <- (exec_then_ret (DefaultAPIKeyStore.set_api_key "b" "s" None)).
  apply (reachable_call _ (SetApiKey "b" "s" None)); [|exact I].
  rewrite <- (exec_then_ret (DefaultAPIKeyStore.set_api_key "a" "s" None)).
  apply (reachable_call _ (SetApiKey "a" "s" None)); [|exact I].
  apply reachable_init.
Qed.

Lemma stored_secret_is_found_witness :
  reachable world_shared_secret /\
  Dict.get (_api_keys (self world_shared_secret)) "a" = Some 0 /\
  exists entry' : ref,
    DefaultAPIKeyStore.get_api_key_entry
      (api_key (heap world_shared_secret 0)) world_shared_secret
    = (Returns (Some entry'), world_shared_secret).
Proof.
  split; [exact world_shared_secret_reachable|]. split; [reflexivity|].
  exact (stored_secret_is_found world_shared_secret "a" 0
           world_shared_secret_reachable eq_refl).
Defined.

(** ** When the reverse index is the derived one *)

Lemma index_after_ext (h h' : ref -> APIKeyEntry)
  (key_entries : list (string * ref)) :
  Forall (fun kv => api_key (h' (snd kv)) = api_key (h (snd kv))) key_entries ->
  forall acc, index_after h' key_entries acc = index_after h key_entries acc.
Proof.
  unfold index_after.
  induction 1 as [|kv kvs Hkv _ IH]; intros acc; simpl.
  - reflexivity.
  - now rewrite Hkv, IH.
Qed.

Lemma index_after_app (h : ref -> APIKeyEntry)
  (kvs kvs' : list (string * ref)) (acc : Dict.t string) :
  index_after h (kvs ++ kvs') acc = index_after h kvs' (index_after h kvs acc).
Proof. unfold index_after. apply fold_left_app. Qed.

Lemma dict_eq_set {V : Type} (d1 d2 : Dict.t V) (k : string) (v : V) :
  Dict.eq d1 d2 -> Dict.eq (Dict.set d1 k v) (Dict.set d2 k v).
Proof.
  intros H k'. destruct (string_dec k k') as [->|Hne].
  - now rewrite !dict_get_set_eq.
  - rewrite !dict_get_set_ne by assumption. apply H.
Qed.

Lemma index_consistent_mutate (w : World) (entry : ref)
  (f : APIKeyEntry -> APIKeyEntry) :
  (forall e, api_key (f e) = api_key e) ->
  index_consistent w -> index_consistent (exec (mutate entry f) w).
Proof.
  intros Hkey H. unfold index_consistent, derived_index, exec, mutate in *.
  cbn [snd heap self]. unfold Dict.items in *.
  change (Dict.eq (_key2name (self w))
            (index_after (fun r' => if Nat.eqb r' entry then f (heap w entry)
                                    else heap w r')
               (_api_keys (self w)) Dict.empty)).
  rewrite (index_after_ext (heap w)); [exact H|].
  apply Forall_forall. intros kv _. cbn beta.
  destruct (Nat.eqb_spec (snd kv) entry) as [->|_]; [apply Hkey|reflexivity].
Qed.

(** X3.  The two methods that change an entry in place keep the reverse index
    equal to the derived one, in every world. *)
Theorem index_kept_by_entry_updates (w : World) (key_name model : string)
  (active : bool) :
  index_consistent w ->
  index_consistent
    (exec (DefaultAPIKeyStore.set_model_to_api_key key_name model) w) /\
  index_consistent
    (exec (DefaultAPIKeyStore.set_api_key_active_status key_name active) w).
Proof.
  intros H. unfold exec.
  destruct (Dict.get (_api_keys (self w)) key_name) as [entry|] eqn:Hget.
  - split.
    + destruct (list_contains model (allowed_models (heap w entry))) eqn:Hin.
      * now rewrite (set_model_present w key_name model entry Hget Hin).
      * rewrite (set_model_new w key_name model entry Hget Hin).
        now apply (index_consistent_mutate w entry (append_model model)).
    + rewrite (set_active_stored w key_name active entry Hget).
      now apply (index_consistent_mutate w entry (with_is_active active)).
  - now rewrite (set_model_absent w key_name model Hget),
      (set_active_absent w key_name active Hget).
Qed.

Lemma index_kept_by_entry_updates_witness :
  index_consistent world_svc_a /\
  index_consistent
    (exec (DefaultAPIKeyStore.set_model_to_api_key "svc-a" "gpt-x") world_svc_a) /\
  index_consistent
    (exec (DefaultAPIKeyStore.set_api_key_active_status "svc-a" false)
       world_svc_a).
Proof.
  assert (H : index_consistent world_svc_a) by (intros k; reflexivity).
  split; [exact H|].
  exact (index_kept_by_entry_updates world_svc_a "svc-a" "gpt-x" false H).
Defined.

(** X4.  Storing an entry under a name that is not stored yet keeps the
    reverse index equal to the derived one, whatever the secret: with
    [set_api_key], provided the listed entries exist, and with
    [set_api_key_entry]. *)
Theorem index_kept_by_new_name (w : World) (key_name : string) :
  Dict.get (_api_keys (self w)) key_name = None ->
  index_consistent w ->
  (forall (key : string) (descr : option string),
      Forall (fun kv => snd kv < next_ref w) (Dict.items (_api_keys (self w))) ->
      index_consistent
        (exec (DefaultAPIKeyStore.set_api_key key_name key descr) w)) /\
  (forall key_entry : ref,
      index_consistent
        (exec (DefaultAPIKeyStore.set_api_key_entry key_name key_entry) w)).
Proof.
  intros Hnew H. split.
  - intros key descr Hlive.
    unfold index_consistent, derived_index, exec, Dict.items in *.
    rewrite set_api_key_run. cbn [snd heap self _api_keys _key2name].
    rewrite (dict_set_absent _ _ _ Hnew).
    match goal with
    | |- Dict.eq _ (fold_left ?g ?l ?a) =>
        change (fold_left g l a)
          with (index_after
                  (fun r' => if Nat.eqb r' (next_ref w)
                             then {| api_key := key; allowed_models := [];
                                     is_active := true; description := descr |}
                             else heap w r') l a)
    end.
    rewrite index_after_app,
      (index_after_ext (heap w) _ (_api_keys (self w))).
    + unfold index_after at 1. cbn [fold_left fst snd].
      rewrite Nat.eqb_refl. cbn [api_key]. now apply dict_eq_set.
    + revert Hlive. apply Forall_impl. intros kv Hlt. cbn beta in *.
      destruct (Nat.eqb_spec (snd kv) (next_ref w)) as [Heq|_];
        [unfold ref in *; lia|reflexivity].
  - intros key_entry.
    unfold index_consistent, derived_index, exec, Dict.items in *.
    rewrite set_api_key_entry_run. cbn [snd heap self _api_keys _key2name].
    rewrite (dict_set_absent _ _ _ Hnew), fold_left_app.
    cbn [fold_left fst snd]. now apply dict_eq_set.
Qed.

Lemma index_kept_by_new_name_witness :
  Dict.get (_api_keys (self world_svc_a)) "svc-b" = None /\
  index_consistent world_svc_a /\
  index_consistent
    (exec (DefaultAPIKeyStore.set_api_key "svc-b" "sk_b" None) world_svc_a) /\
  index_consistent
    (exec (DefaultAPIKeyStore.set_api_key_entry "svc-b" 0) world_svc_a).
Proof.
  assert (H : index_consistent world_svc_a) by (intros k; reflexivity).
  split; [reflexivity|]. split; [exact H|].
  destruct (index_kept_by_new_name world_svc_a "svc-b" eq_refl H) as [H1 H2].
  split; [apply H1 | apply H2].
  repeat constructor.
Defined.

(** ** Unknown secrets when no entry is named by the empty string *)

(** X5.  When the secret is not a key of the reverse index and no entry is
    stored under the name [""], the lookup returns [None], the manager
    reports no allowed model, and [get_api_key] returns the placeholder;
    nothing is raised and nothing changes. *)
Theorem unknown_secret_without_empty_name (w : World) (key : string) :
  Dict.get (_key2name (self w)) key = None ->
  Dict.get (_api_keys (self w)) "" = None ->
  DefaultAPIKeyStore.get_api_key_entry key w = (Returns None, w) /\
  BaseKeyManager.get_allow_models key w = (Returns [], w) /\
  BaseKeyManager.get_api_key key w = (Returns "BASE_API_KEY", w).
Proof.
  intros Hunknown Hnone.
  rewrite get_api_key_entry_run, get_allow_models_run, get_api_key_run.
  unfold Dict.get_or. rewrite Hunknown, Hnone. repeat split.
Qed.

Lemma unknown_secret_without_empty_name_witness :
  Dict.get (_key2name (self world_svc_a)) "sk_zzz" = None /\
  Dict.get (_api_keys (self world_svc_a)) "" = None /\
  DefaultAPIKeyStore.get_api_key_entry "sk_zzz" world_svc_a
    = (Returns None, world_svc_a) /\
  BaseKeyManager.get_allow_models "sk_zzz" world_svc_a
    = (Returns [], world_svc_a) /\
  BaseKeyManager.get_api_key "sk_zzz" world_svc_a
    = (Returns "BASE_API_KEY", world_svc_a).
Proof.
  split; [reflexivity|]. split; [reflexivity|].
  exact (unknown_secret_without_empty_name world_svc_a "sk_zzz"
           eq_refl eq_refl).
Defined.

(** ** The seeded scenario *)

(** An example: a store seeded with [{"svc-a": APIKeyEntry(api_key="sk_a")}]:
    granting ["gpt-x"] to ["svc-a"] returns [True], the manager then
    reports [["gpt-x"]] for ["sk_a"], and after the entry is deactivated
    the lookup of ["sk_a"] still returns it, with [is_active = False]. *)
Theorem seeded_scenario :
  let w1 := exec (DefaultAPIKeyStore.set_model_to_api_key "svc-a" "gpt-x")
              world_seeded in
  let w2 := exec (DefaultAPIKeyStore.set_api_key_active_status "svc-a" false)
              w1 in
  result (DefaultAPIKeyStore.set_model_to_api_key "svc-a" "gpt-x") world_seeded
    = Returns true /\
  result (BaseKeyManager.get_allow_models "sk_a") w1 = Returns ["gpt-x"] /\
  result (DefaultAPIKeyStore.get_api_key_entry "sk_a") w2 = Returns (Some 0) /\
  heap w2 0 = {| api_key := "sk_a"; allowed_models := ["gpt-x"];
                 is_active := false; description := None |}.
Proof. repeat split. Qed.

(** * How the methods compose *)

Lemma set_model_cases (w : World) (key_name model : string) :
  DefaultAPIKeyStore.set_model_to_api_key key_name model w = (Returns false, w) \/
  exists entry : ref,
    Dict.get (_api_keys (self w)) key_name = Some entry /\
    ~ In model (allowed_models (heap w entry)) /\
    DefaultAPIKeyStore.set_model_to_api_key key_name model w =
    (Returns true,
     {| heap := fun r' =>
          if Nat.eqb r' entry then append_model model (heap w entry)
          else heap w r';
        next_ref := next_ref w;
        self := self w |}).
Proof.
  destruct (Dict.get (_api_keys (self w)) key_name) as [entry|] eqn:Hget.
  - destruct (list_contains model (allowed_models (heap w entry))) eqn:Hin.
    + left. now apply (set_model_present w key_name model entry).
    + right. exists entry. split; [reflexivity|]. split.
      * now apply list_contains_not_In.
      * now apply set_model_new.
  - left. now apply set_model_absent.
Qed.

Lemma set_active_cases (w : World) (key_name : string) (active : bool) :
  DefaultAPIKeyStore.set_api_key_active_status key_name active w = (Returns tt, w) \/
  exists entry : ref,
    Dict.get (_api_keys (self w)) key_name = Some entry /\
    DefaultAPIKeyStore.set_api_key_active_status key_name active w =
    (Returns tt,
     {| heap := fun r' =>
          if Nat.eqb r' entry then with_is_active active (heap w entry)
          else heap w r';
        next_ref := next_ref w;
        self := self w |}).
Proof.
  destruct (Dict.get (_api_keys (self w)) key_name) as [entry|] eqn:Hget.
  - right. exists entry. split; [reflexivity|]. now apply set_active_stored.
  - left. now apply set_active_absent.
Qed.


(** X7.  [get_allow_models] does not consult [is_active]: whatever name
    is activated or deactivated, every secret is reported the models it
    was reported before. *)
Theorem active_flag_not_consulted (w : World) (key_name key : string)
  (active : bool) :
  result (BaseKeyManager.get_allow_models key)
    (exec (DefaultAPIKeyStore.set_api_key_active_status key_name active) w)
  = result (BaseKeyManager.get_allow_models key) w.
Proof.
  unfold result, exec.
  destruct (set_active_cases w key_name active) as [H|(entry & _ & H)];
    rewrite H; [reflexivity|].
  rewrite !get_allow_models_run. cbn [fst snd heap self].
  destruct (Dict.get (_api_keys (self w)) _) as [found|]; [|reflexivity].
  now destruct (Nat.eqb_spec found entry) as [->|_].
Qed.




(** ** Models are listed once *)

Lemma NoDup_append_new {A : Type} (l : list A) (a : A) :
  NoDup l -> ~ In a l -> NoDup (l ++ [a]).
Proof.
  induction 1 as [|x l Hx Hl IH]; intros Hnew; simpl.
  - constructor; [intros []|constructor].
  - constructor.
    + rewrite in_app_iff. intros [H|[H|[]]]; [contradiction|].
      subst. apply Hnew. now left.
    + apply IH. intros H. apply Hnew. now right.
Qed.



(** ** Several grants *)

Lemma grant_all_new (models : list string) :
  forall (w : World) (key_name : string) (entry : ref),
    Dict.get (_api_keys (self w)) key_name = Some entry ->
    NoDup models ->
    (forall m, In m models -> ~ In m (allowed_models (heap w entry))) ->
    grant_all key_name models w
    = (Returns (map (fun _ => true) models), exec (grant_all key_name models) w) /\
    self (exec (grant_all key_name models) w) = self w /\
    allowed_models (heap (exec (grant_all key_name models) w) entry)
    = allowed_models (heap w entry) ++ models.
Proof.
  induction models as [|m ms IH]; intros w key_name entry Hget Hnd Hnew.
  - unfold exec. cbn. now rewrite app_nil_r.
  - inversion Hnd as [|m' ms' Hm Hnd']; subst.
    assert (Hm_new : list_contains m (allowed_models (heap w entry)) = false).
    { apply list_contains_not_In, Hnew. now left. }
    pose proof (set_model_new w key_name m entry Hget Hm_new) as Hrun.
    set (w1 := {| heap := fun r' =>
                    if Nat.eqb r' entry then append_model m (heap w entry)
                    else heap w r';
                  next_ref := next_ref w;
                  self := self w |}) in *.
    destruct (IH w1 key_name entry) as (Hres & Hself & Hmodels).
    + exact Hget.
    + exact Hnd'.
    + intros m0 Hin. unfold w1. cbn [heap]. rewrite Nat.eqb_refl.
      cbn [append_model allowed_models]. rewrite in_app_iff.
      intros [H|[H|[]]].
      * apply (Hnew m0); [now right|exact H].
      * subst. contradiction.
    + assert (Hall : grant_all key_name (m :: ms) w
                     = (Returns (map (fun _ => true) (m :: ms)),
                        exec (grant_all key_name ms) w1)).
      { cbn [grant_all]. unfold bind. rewrite Hrun, Hres. reflexivity. }
      unfold exec at 1 2 3. rewrite Hall. cbn [snd].
      split; [reflexivity|]. split; [exact Hself|].
      rewrite Hmodels. unfold w1. cbn [heap]. rewrite Nat.eqb_refl.
      cbn [append_model allowed_models]. now rewrite <- app_assoc.
Qed.

(** X11.  Granting pairwise distinct models, none of them listed yet, to
    a stored name: every call returns [True], the entry lists the old
    models followed by the new ones in the order granted, and so does
    [get_allow_models] for a secret that resolves to the entry. *)
Theorem grants_in_order (w : World) (key_name key : string) (entry : ref)
  (models : list string) :
  Dict.get (_api_keys (self w)) key_name = Some entry ->
  result (DefaultAPIKeyStore.get_api_key_entry key) w = Returns (Some entry) ->
  NoDup models ->
  (forall m, In m models -> ~ In m (allowed_models (heap w entry))) ->
  let w' := exec (grant_all key_name models) w in
  result (grant_all key_name models) w = Returns (map (fun _ => true) models) /\
  result (BaseKeyManager.get_allow_models key) w'
  = Returns (allowed_models (heap w entry) ++ models).
Proof.
  intros Hget Hfound Hnd Hnew. cbv zeta.
  destruct (grant_all_new models w key_name entry Hget Hnd Hnew)
    as (Hres & Hself & Hmodels).
  unfold result in *. rewrite Hres. split; [reflexivity|].
  rewrite get_allow_models_run, get_api_key_entry_run in *.
  cbn [fst] in *. rewrite Hself. injection Hfound as Hfound.
  now rewrite Hfound, Hmodels.
Qed.

Lemma grants_in_order_witness :
  let models := ["gpt-x"; "gpt-y"; "*"] in
  Dict.get (_api_keys (self world_svc_a)) "svc-a" = Some 0 /\
  result (DefaultAPIKeyStore.get_api_key_entry "sk_a") world_svc_a
    = Returns (Some 0) /\
  NoDup models /\
  (forall m, In m models -> ~ In m (allowed_models (heap world_svc_a 0))) /\
  result (grant_all "svc-a" models) world_svc_a
    = Returns (map (fun _ => true) models) /\
  result (BaseKeyManager.get_allow_models "sk_a")
    (exec (grant_all "svc-a" models) world_svc_a)
  = Returns (allowed_models (heap world_svc_a 0) ++ models).
Proof.
  cbv zeta.
  assert (Hnd : NoDup ["gpt-x"; "gpt-y"; "*"]).
  { repeat constructor; simpl; intuition discriminate. }
  assert (Hnew : forall m, In m ["gpt-x"; "gpt-y"; "*"] ->
                           ~ In m (allowed_models (heap world_svc_a 0))).
  { intros m _ H. exact H. }
  split; [reflexivity|]. split; [reflexivity|].
  split; [exact Hnd|]. split; [exact Hnew|].
  exact (grants_in_order world_svc_a "svc-a" "sk_a" 0 _ eq_refl eq_refl
           Hnd Hnew).
Defined.

(** ** The flag is the last one set *)

(** X12.  [set_api_key_active_status] sets the flag of the entry stored
    under [key_name] to the value given, and a second call overrides the
    first: two calls in a row leave every object and both dictionaries as
    the second call alone does. *)
Theorem set_active_last_wins (w : World) (key_name : string) (a b : bool) :
  let set := DefaultAPIKeyStore.set_api_key_active_status key_name in
  let w1 := exec (set b) w in
  let w2 := exec (set b) (exec (set a) w) in
  (forall entry, Dict.get (_api_keys (self w)) key_name = Some entry ->
                 is_active (heap w1 entry) = b) /\
  self w2 = self w1 /\ next_ref w2 = next_ref w1 /\
  forall r : ref, heap w2 r = heap w1 r.
Proof.
  cbv zeta. unfold exec.
  destruct (Dict.get (_api_keys (self w)) key_name) as [entry|] eqn:Hget.
  - rewrite (set_active_stored w key_name a entry Hget).
    rewrite (set_active_stored w key_name b entry Hget).
    cbn [snd].
    match goal with
    | |- context [DefaultAPIKeyStore.set_api_key_active_status key_name b ?w'] =>
        rewrite (set_active_stored w' key_name b entry Hget)
    end.
    cbn [snd heap self next_ref]. repeat split.
    + intros entry' H. injection H as <-. now rewrite Nat.eqb_refl.
    + intros r. rewrite Nat.eqb_refl. now destruct (Nat.eqb r entry).
  - rewrite (set_active_absent w key_name a Hget). cbn [snd].
    rewrite (set_active_absent w key_name b Hget).
    split; [intros entry H; discriminate H|]. repeat split.
Qed.

(** ** One entry under two names *)

(** X13.  The store keeps the caller's entry object, not a copy: when the
    same entry is stored under two names with [set_api_key_entry], a model
    granted through the first name is listed by the entry under the second
    name too, and [get_allow_models] reports it for the entry's secret. *)
Theorem shared_entry_shares_grants (w : World) (name1 name2 model : string)
  (entry : ref) :
  ~ In model (allowed_models (heap w entry)) ->
  let w' :=
    exec (DefaultAPIKeyStore.set_model_to_api_key name1 model)
      (exec (DefaultAPIKeyStore.set_api_key_entry name2 entry)
         (exec (DefaultAPIKeyStore.set_api_key_entry name1 entry) w)) in
  Dict.get (_api_keys (self w')) name1 = Some entry /\
  Dict.get (_api_keys (self w')) name2 = Some entry /\
  allowed_models (heap w' entry) = allowed_models (heap w entry) ++ [model] /\
  result (BaseKeyManager.get_allow_models (api_key (heap w entry))) w'
  = Returns (allowed_models (heap w entry) ++ [model]).
Proof.
  intros Hnew. cbv zeta. apply list_contains_not_In in Hnew.
  set (d2 := Dict.set (Dict.set (_api_keys (self w)) name1 entry) name2 entry).
  set (k2 := Dict.set (Dict.set (_key2name (self w)) (api_key (heap w entry))
                         name1) (api_key (heap w entry)) name2).
  assert (Hw2 : exec (DefaultAPIKeyStore.set_api_key_entry name2 entry)
                  (exec (DefaultAPIKeyStore.set_api_key_entry name1 entry) w)
                = {| heap := heap w; next_ref := next_ref w;
                     self := {| _api_keys := d2; _key2name := k2 |} |}).
  { unfold exec. now rewrite !set_api_key_entry_run. }
  rewrite Hw2. clear Hw2.
  assert (H1 : Dict.get d2 name1 = Some entry).
  { unfold d2. destruct (string_dec name2 name1) as [->|Hne].
    - apply dict_get_set_eq.
    - rewrite dict_get_set_ne by assumption. apply dict_get_set_eq. }
  assert (H2 : Dict.get d2 name2 = Some entry) by apply dict_get_set_eq.
  assert (Hk : Dict.get k2 (api_key (heap w entry)) = Some name2)
    by apply dict_get_set_eq.
  unfold result, exec.
  match goal with
  | |- context [DefaultAPIKeyStore.set_model_to_api_key name1 model ?w2] =>
      rewrite (set_model_new w2 name1 model entry H1 Hnew)
  end.
  rewrite get_allow_models_run. cbn [fst snd heap self _api_keys _key2name].
  unfold Dict.get_or. rewrite Hk, H2, Nat.eqb_refl. repeat split; assumption.
Qed.

Lemma shared_entry_shares_grants_witness :
  ~ In "gpt-x" (allowed_models (heap world_two_entries 0)) /\
  result (BaseKeyManager.get_allow_models "sk_1")
    (exec (DefaultAPIKeyStore.set_model_to_api_key "first" "gpt-x")
       (exec (DefaultAPIKeyStore.set_api_key_entry "second" 0)
          (exec (DefaultAPIKeyStore.set_api_key_entry "first" 0)
             world_two_entries)))
  = Returns (["gpt-a"] ++ ["gpt-x"]).
Proof.
  assert (Hnew : ~ In "gpt-x" (allowed_models (heap world_two_entries 0))).
  { simpl. intros [H|[]]. discriminate H. }
  split; [exact Hnew|].
  exact (proj2 (proj2 (proj2
    (shared_entry_shares_grants world_two_entries "first" "second" "gpt-x" 0
       Hnew)))).
Defined.

(** ** The batch load, entry by entry *)

Section FoldSet.
Context {A V : Type} (kf : A -> string) (vf : A -> V).

Lemma fold_set_get_other (xs : list A) :
  forall (acc : Dict.t V) (k : string),
    ~ In k (map kf xs) ->
    Dict.get (fold_left (fun acc x => Dict.set acc (kf x) (vf x)) xs acc) k
    = Dict.get acc k.
Proof.
  induction xs as [|x xs IH]; intros acc k Hnot; simpl; [reflexivity|].
  rewrite IH.
  - apply dict_get_set_ne. intros Heq. apply Hnot. now left.
  - intros Hin. apply Hnot. now right.
Qed.

Lemma fold_set_get_in (xs : list A) :
  forall (acc : Dict.t V) (x : A),
    NoDup (map kf xs) -> In x xs ->
    Dict.get (fold_left (fun acc x => Dict.set acc (kf x) (vf x)) xs acc) (kf x)
    = Some (vf x).
Proof.
  induction xs as [|y xs IH]; intros acc x Hnd Hin; [destruct Hin|].
  inversion Hnd as [|k ks Hy Hnd']; subst. simpl.
  destruct Hin as [->|Hin].
  - rewrite fold_set_get_other by assumption. apply dict_get_set_eq.
  - now apply IH.
Qed.

End FoldSet.

(** X14.  After [set_api_key_entry_batch] of a dictionary whose entries
    have pairwise distinct secrets, every entry of the batch is stored
    under its name and is the entry its secret resolves to; the objects
    themselves are not changed. *)
Theorem batch_entries_found (w : World) (key_entries : Dict.t ref)
  (key_name : string) (entry : ref) :
  NoDup (map fst key_entries) ->
  NoDup (map (fun kv => api_key (heap w (snd kv))) key_entries) ->
  In (key_name, entry) key_entries ->
  let w' := exec (DefaultAPIKeyStore.set_api_key_entry_batch key_entries) w in
  Dict.get (_api_keys (self w')) key_name = Some entry /\
  result (DefaultAPIKeyStore.get_api_key_entry (api_key (heap w entry))) w'
  = Returns (Some entry) /\
  heap w' = heap w.
Proof.
  intros Hnames Hsecrets Hin. cbv zeta. unfold result, exec.
  rewrite set_api_key_entry_batch_run, get_api_key_entry_run.
  cbn [fst snd heap self _api_keys _key2name].
  assert (Hd : Dict.get (Dict.update (_api_keys (self w)) key_entries) key_name
               = Some entry).
  { exact (fold_set_get_in fst snd key_entries _ (key_name, entry) Hnames Hin). }
  assert (Hk : Dict.get (index_after (heap w) key_entries (_key2name (self w)))
                 (api_key (heap w entry)) = Some key_name).
  { exact (fold_set_get_in (fun kv => api_key (heap w (snd kv))) fst
             key_entries _ (key_name, entry) Hsecrets Hin). }
  unfold Dict.get_or. rewrite Hk, Hd. repeat split.
Qed.

Lemma batch_entries_found_witness :
  let key_entries := [("first", 0); ("second", 1)] in
  NoDup (map fst key_entries) /\
  NoDup (map (fun kv => api_key (heap world_two_entries (snd kv))) key_entries) /\
  In ("second", 1) key_entries /\
  let w' := exec (DefaultAPIKeyStore.set_api_key_entry_batch key_entries)
              world_two_entries in
  Dict.get (_api_keys (self w')) "second" = Some 1 /\
  result (DefaultAPIKeyStore.get_api_key_entry
            (api_key (heap world_two_entries 1))) w'
  = Returns (Some 1) /\
  heap w' = heap world_two_entries.
Proof.
  cbv zeta.
  assert (H1 : NoDup (map fst [("first", 0); ("second", 1)])).
  { repeat constructor; simpl; intuition discriminate. }
  assert (H2 : NoDup (map (fun kv : string * ref =>
                             api_key (heap world_two_entries (snd kv)))
                        [("first", 0); ("second", 1)])).
  { repeat constructor; simpl; intuition discriminate. }
  assert (H3 : In ("second", 1) [("first", 0); ("second", 1)]).
  { right. now left. }
  split; [exact H1|]. split; [exact H2|]. split; [exact H3|].
  exact (batch_entries_found world_two_entries _ "second" 1 H1 H2 H3).
Defined.

(** ** Replacing the entry of a name *)

Lemma dict_set_keys_present {V : Type} (d : Dict.t V) (k : string) (v : V) :
  Dict.contains d k = true -> map fst (Dict.set d k v) = map fst d.
Proof.
  unfold Dict.contains.
  induction d as [|[k' v'] d IH]; simpl; [discriminate|].
  destruct (String.eqb k' k); simpl; [reflexivity|].
  intros H. now rewrite IH.
Qed.

(** X15.  Storing an entry under a name that is stored already, with
    [set_api_key] or [set_api_key_entry], replaces the entry of that name
    where it stands: [get_all_api_key_entries] lists the same names in the
    same order, and every other name keeps its entry. *)
Theorem replacing_keeps_position (w : World) (key_name : string) :
  Dict.contains (_api_keys (self w)) key_name = true ->
  forall w' : World,
    (exists key descr,
        w' = exec (DefaultAPIKeyStore.set_api_key key_name key descr) w) \/
    (exists key_entry,
        w' = exec (DefaultAPIKeyStore.set_api_key_entry key_name key_entry) w) ->
    exists before after : list (string * ref),
      result DefaultAPIKeyStore.get_all_api_key_entries w = Returns before /\
      result DefaultAPIKeyStore.get_all_api_key_entries w' = Returns after /\
      map fst after = map fst before /\
      forall other, other <> key_name ->
                    Dict.get (_api_keys (self w')) other
                    = Dict.get (_api_keys (self w)) other.
Proof.
  intros Hstored w' Hw'.
  exists (Dict.items (_api_keys (self w))), (Dict.items (_api_keys (self w'))).
  split; [reflexivity|]. split; [reflexivity|].
  destruct Hw' as [(key & descr & ->)|(key_entry & ->)]; unfold exec.
  - rewrite set_api_key_run. cbn [snd self _api_keys]. unfold Dict.items.
    split; [now apply dict_set_keys_present|].
    intros other Hne. apply dict_get_set_ne. congruence.
  - rewrite set_api_key_entry_run. cbn [snd self _api_keys]. unfold Dict.items.
    split; [now apply dict_set_keys_present|].
    intros other Hne. apply dict_get_set_ne. congruence.
Qed.

Lemma replacing_keeps_position_witness :
  Dict.contains (_api_keys (self world_shared_secret)) "a" = true /\
  exists before after : list (string * ref),
    result DefaultAPIKeyStore.get_all_api_key_entries world_shared_secret
      = Returns before /\
    result DefaultAPIKeyStore.get_all_api_key_entries
      (exec (DefaultAPIKeyStore.set_api_key "a" "s2" None) world_shared_secret)
      = Returns after /\
    map fst after = map fst before /\
    forall other, other <> "a" ->
      Dict.get (_api_keys (self (exec (DefaultAPIKeyStore.set_api_key
                                         "a" "s2" None) world_shared_secret)))
        other
      = Dict.get (_api_keys (self world_shared_secret)) other.
Proof.
  split; [reflexivity|].
  apply (replacing_keeps_position world_shared_secret "a" eq_refl).
  left. exists "s2", None. reflexivity.
Defined.

(** ** A new key for one name and the keys of the others *)

(** X16.  In a world a program can reach, [set_api_key(key_name, key)]
    does not disturb the other keys: for every other secret that does not
    resolve to [key_name], [get_api_key_entry] returns what it returned
    before and [get_allow_models] reports the same models. *)
Theorem set_api_key_isolated (w : World) (key_name key other : string)
  (descr : option string) :
  reachable w ->
  other <> key ->
  Dict.get_or (_key2name (self w)) other "" <> key_name ->
  let w' := exec (DefaultAPIKeyStore.set_api_key key_name key descr) w in
  result (DefaultAPIKeyStore.get_api_key_entry other) w'
  = result (DefaultAPIKeyStore.get_api_key_entry other) w /\
  result (BaseKeyManager.get_allow_models other) w'
  = result (BaseKeyManager.get_allow_models other) w.
Proof.
  intros Hreach Hother Hname. cbv zeta.
  destruct (reachable_store_ok w Hreach) as (Hlive & _ & _).
  unfold result, exec. rewrite set_api_key_run.
  rewrite !get_api_key_entry_run, !get_allow_models_run.
  cbn [fst snd heap self _api_keys _key2name].
  assert (Hk : Dict.get_or (Dict.set (_key2name (self w)) key key_name) other ""
               = Dict.get_or (_key2name (self w)) other "").
  { unfold Dict.get_or. rewrite dict_get_set_ne; [reflexivity|congruence]. }
  rewrite Hk, dict_get_set_ne by congruence. split; [reflexivity|].
  destruct (Dict.get (_api_keys (self w)) _) as [found|] eqn:Hfound;
    [|reflexivity].
  apply Hlive in Hfound.
  destruct (Nat.eqb_spec found (next_ref w)) as [Heq|_]; [lia|reflexivity].
Qed.

Lemma set_api_key_isolated_witness :
  reachable world_shared_secret /\
  "s" <> "s2" /\
  Dict.get_or (_key2name (self world_shared_secret)) "s" "" <> "a" /\
  let w' := exec (DefaultAPIKeyStore.set_api_key "a" "s2" None)
              world_shared_secret in
  result (DefaultAPIKeyStore.get_api_key_entry "s") w'
  = result (DefaultAPIKeyStore.get_api_key_entry "s") world_shared_secret /\
  result (BaseKeyManager.get_allow_models "s") w'
  = result (BaseKeyManager.get_allow_models "s") world_shared_secret.
Proof.
  assert (H1 : "s" <> "s2") by discriminate.
  assert (H2 : Dict.get_or (_key2name (self world_shared_secret)) "s" "" <> "a")
    by discriminate.
  split; [exact world_shared_secret_reachable|].
  split; [exact H1|]. split; [exact H2|].
  exact (set_api_key_isolated world_shared_secret "a" "s2" "s" None
           world_shared_secret_reachable H1 H2).
Defined.

(** ** The listing and the forward map *)

Lemma dict_get_none_not_in {V : Type} (d : Dict.t V) (k : string) :
  Dict.get d k = None -> ~ In k (map fst d).
Proof.
  induction d as [|[k' v'] d IH]; simpl; intros Hget; [intros []|].
  destruct (String.eqb_spec k' k) as [->|Hne]; [discriminate|].
  intros [H|H]; [contradiction|]. now apply IH.
Qed.

Lemma dict_set_keys_nodup {V : Type} (d : Dict.t V) (k : string) (v : V) :
  NoDup (map fst d) -> NoDup (map fst (Dict.set d k v)).
Proof.
  intros Hnd. destruct (Dict.get d k) as [v0|] eqn:Hget.
  - rewrite dict_set_keys_present; [exact Hnd|].
    unfold Dict.contains. now rewrite Hget.
  - rewrite (dict_set_absent d k v Hget), map_app. simpl.
    apply NoDup_append_new; [exact Hnd|]. now apply dict_get_none_not_in.
Qed.

Lemma dict_update_keys_nodup {V : Type} (other : list (string * V)) :
  forall d : Dict.t V,
    NoDup (map fst d) -> NoDup (map fst (Dict.update d other)).
Proof.
  unfold Dict.update.
  induction other as [|kv kvs IH]; intros d Hnd; simpl; [exact Hnd|].
  apply IH. now apply dict_set_keys_nodup.
Qed.

Lemma dict_get_in {V : Type} (d : Dict.t V) (k : string) (v : V) :
  Dict.get d k = Some v -> In (k, v) d.
Proof.
  induction d as [|[k' v'] d IH]; simpl; [discriminate|].
  destruct (String.eqb_spec k' k) as [->|Hne].
  - intros H. injection H as ->. now left.
  - intros H. right. now apply IH.
Qed.

Lemma dict_in_get {V : Type} (d : Dict.t V) (k : string) (v : V) :
  NoDup (map fst d) -> In (k, v) d -> Dict.get d k = Some v.
Proof.
  induction d as [|[k' v'] d IH]; simpl; intros Hnd Hin; [destruct Hin|].
  inversion Hnd as [|x xs Hx Hnd']; subst.
  destruct Hin as [Heq|Hin].
  - injection Heq as -> ->. now rewrite String.eqb_refl.
  - destruct (String.eqb_spec k' k) as [->|Hne]; [|now apply IH].
    exfalso. apply Hx. now apply (in_map fst _ (k, v)).
Qed.

Lemma reachable_keys_nodup (w : World) :
  reachable w -> NoDup (map fst (_api_keys (self w))).
Proof.
  induction 1 as [h n | w c Hreach IH _].
  - constructor.
  - destruct c as [e | key_name key descr | key_name key_entry | key_entries
                  | key_name model | key_name active];
      cbn [run_call]; rewrite ?exec_then_ret; unfold exec.
    + exact IH.
    + rewrite set_api_key_run. now apply dict_set_keys_nodup.
    + rewrite set_api_key_entry_run. now apply dict_set_keys_nodup.
    + rewrite set_api_key_entry_batch_run. now apply dict_update_keys_nodup.
    + destruct (set_model_cases w key_name model) as [H|(entry & _ & _ & H)];
        now rewrite H.
    + destruct (set_active_cases w key_name active) as [H|(entry & _ & H)];
        now rewrite H.
Qed.

(** X17.  In a world a program can reach, [get_all_api_key_entries]
    lists every stored name once, each with the entry stored under it,
    and nothing else. *)
Theorem listing_is_the_forward_map (w : World) :
  reachable w ->
  exists l : list (string * ref),
    DefaultAPIKeyStore.get_all_api_key_entries w = (Returns l, w) /\
    NoDup (map fst l) /\
    forall key_name entry,
      In (key_name, entry) l <->
      Dict.get (_api_keys (self w)) key_name = Some entry.
Proof.
  intros Hreach. exists (Dict.items (_api_keys (self w))).
  pose proof (reachable_keys_nodup w Hreach) as Hnd.
  split; [reflexivity|]. split; [exact Hnd|].
  intros key_name entry. unfold Dict.items. split.
  - now apply dict_in_get.
  - apply dict_get_in.
Qed.

Lemma listing_is_the_forward_map_witness :
  reachable world_shared_secret /\
  exists l : list (string * ref),
    DefaultAPIKeyStore.get_all_api_key_entries world_shared_secret
    = (Returns l, world_shared_secret) /\
    NoDup (map fst l) /\
    forall key_name entry,
      In (key_name, entry) l <->
      Dict.get (_api_keys (self world_shared_secret)) key_name = Some entry.
Proof.
  split; [exact world_shared_secret_reachable|].
  exact (listing_is_the_forward_map world_shared_secret
           world_shared_secret_reachable).
Defined.

(** ** Instances of the frame and of the last flag *)


Lemma set_active_last_wins_witness :
  Dict.get (_api_keys (self world_svc_a)) "svc-a" = Some 0 /\
  is_active (heap (exec (DefaultAPIKeyStore.set_api_key_active_status
                           "svc-a" false) world_svc_a) 0) = false.
Proof.
  split; [reflexivity|].
  apply (proj1 (set_active_last_wins world_svc_a "svc-a" true false) 0).
  reflexivity.
Defined.
